(** * VirtualGrid: a row-virtualised grid component

    Shallow embedding of [src/components/VirtualGrid.tsx].  The component
    keeps two pieces of state (the published column count and the
    end-reached watermark), derives the row partition of the item
    sequence from the column count, and delegates windowing to a
    virtualizer.  Each function below is a transcription of the
    corresponding expression of the component; React state and refs are
    threaded explicitly. *)

From Stdlib Require Import ZArith QArith Qround Lia Ascii.
From stdpp Require Import base list strings gmap.

Close Scope Q_scope.
Open Scope nat_scope.

(** ** JavaScript numbers, as far as the component needs them

    [items.length / columns] is a real division of two array lengths
    (below 2^32, so the double quotient never rounds across an integer);
    the quotient is kept exact as a rational.  Division by zero yields
    [Infinity] or [NaN] instead of raising. *)

Inductive number : Type :=
  | Num (q : Q)
  | Infinity
  | NaN.

(** [a / b] for two array lengths. *)
Definition js_div (a b : nat) : number :=
  match b with
  | O => match a with O => NaN | S _ => Infinity end
  | S _ => Num (Z.of_nat a # Pos.of_nat b)
  end.

(** [Math.ceil]. *)
Definition Math_ceil (x : number) : number :=
  match x with
  | Num q => Num (inject_Z (Qceiling q))
  | Infinity => Infinity
  | NaN => NaN
  end.

(** An integral JavaScript number. *)
Definition int (k : nat) : number := Num (inject_Z (Z.of_nat k)).

(** ** Column detection (lines 40-50) *)

(** [String.prototype.split] with a one-character separator: the pieces
    between consecutive separators, empty pieces included. *)
Fixpoint split (sep : ascii) (s : string) : list string :=
  match s with
  | EmptyString => [EmptyString]
  | String c s' =>
      if Ascii.eqb c sep then EmptyString :: split sep s'
      else match split sep s' with
           | piece :: rest => String c piece :: rest
           | [] => [String c EmptyString]
           end
  end.

(** The part of [window.getComputedStyle(el)] that is read. *)
Record CSSStyleDeclaration : Type := { gridTemplateColumns : string }.

(** [useState(3)]. *)
Definition initialColumns : nat := 3.

(** [detectColumns]: [probeRef] is [probeRef.current] ([None] for null),
    seen through its computed style; the result is the argument of the
    [setColumns] call, if one is made. *)
Definition detectColumns (probeRef : option CSSStyleDeclaration) (columns : nat)
  : option nat :=
  match probeRef with
  | None => None
  | Some style =>
      let cols := length (split " " (gridTemplateColumns style)) in
      if (0 <? cols) && negb (cols =? columns) then Some cols else None
  end.

(** The [columns] state after one detection pass. *)
Definition columnsAfter (columns : nat) (probeRef : option CSSStyleDeclaration) : nat :=
  match detectColumns probeRef columns with
  | Some cols => cols
  | None => columns
  end.

(** The [columns] state after a series of detection passes (mount, then
    one pass per resize notification). *)
Definition columnsTrace (passes : list (option CSSStyleDeclaration)) : nat :=
  foldl columnsAfter initialColumns passes.

(** ** Row partition (lines 59 and 128-129) *)

(** [Math.ceil(items.length / columns)]. *)
Definition rowCount {T} (items : list T) (columns : nat) : number :=
  Math_ceil (js_div (length items) columns).

(** [Array.prototype.slice(start, end)]: negative arguments count from the
    end, both are clamped to the array. *)
Definition slice {T} (l : list T) (start end_ : Z) : list T :=
  let len := Z.of_nat (length l) in
  let k := if (start <? 0)%Z then Z.max (len + start) 0 else Z.min start len in
  let final := if (end_ <? 0)%Z then Z.max (len + end_) 0 else Z.min end_ len in
  take (Z.to_nat (final - k)) (drop (Z.to_nat k) l).

(** The items of the virtual row with the given index. *)
Definition rowItems {T} (items : list T) (columns : nat) (index : nat) : list T :=
  let startIdx := (Z.of_nat index * Z.of_nat columns)%Z in
  slice items startIdx (startIdx + Z.of_nat columns)%Z.

(** The spec's [ceil(N / C)]: characterised below as the least [k] with
    [N <= k * C]. *)
Definition ceil_div (N C : nat) : nat := (N + C - 1) / C.

(** The spec's slice [items[a : b]]: the elements at positions [a <= i < b]. *)
Definition items_range {T} (items : list T) (a b : nat) : list T :=
  take (b - a) (drop a items).

(** ** Scroll surface selection (lines 63-72) *)

Inductive ScrollElement : Type :=
  | documentElement
  | body.

(** The scroll metrics of [document.documentElement] that are read:
    [scrollTop] is a signed, possibly fractional number (it is negative
    during elastic overscroll), the two heights are integers. *)
Record RootMetrics : Type := {
  scrollTop : Q;
  scrollHeight : Z;
  clientHeight : Z
}.

(** The globals the function reads: whether [typeof window] is other than
    ['undefined'], and the document, if one is defined. *)
Record Environment : Type := {
  hasWindow : bool;
  document : option RootMetrics
}.

(** The function returns an element, or the access to an undefined
    [document] raises. *)
Inductive Outcome : Type :=
  | Returns (element : ScrollElement)
  | ReferenceError.

(** [a > b] on numbers. *)
Definition Qgt_bool (a b : Q) : bool := negb (Qle_bool a b).

(** [getScrollElement]. *)
Definition getScrollElement (env : Environment) : Outcome :=
  if hasWindow env then
    match document env with
    | Some root =>
        Returns (if Qgt_bool (scrollTop root) 0
                    || (clientHeight root <? scrollHeight root)%Z
                 then documentElement
                 else body)
    | None => ReferenceError
    end
  else
    match document env with
    | Some _ => Returns body
    | None => ReferenceError
    end.

(** A browser: window and document are defined. *)
Definition browser (root : RootMetrics) : Environment :=
  {| hasWindow := true; document := Some root |}.

(** The two conditions of line 67. *)
Definition scrolled (root : RootMetrics) : Prop := (0 < scrollTop root)%Q.
Definition overflows (root : RootMetrics) : Prop :=
  (clientHeight root < scrollHeight root)%Z.

(** The reading "a nonzero scroll offset selects the root element". *)
Definition selectsRootWhenNonzero : Prop :=
  forall root,
    getScrollElement (browser root) = Returns documentElement
    <-> ~ (scrollTop root == 0)%Q \/ overflows root.

(** ** End-of-list detection (lines 77-96) *)

(** The fields of a virtual row that the component reads. *)
Record VirtualItem : Type := {
  index : nat;
  start : Z;
  key : nat
}.

(** The [endReached] prop is an opaque zero-argument callback; its
    invocations are counted. *)
Inductive Callback : Type := callback.

(** [lastVirtualRowRef.current] together with the number of [endReached()]
    calls made so far. *)
Record Detector : Type := {
  lastVirtualRowRef : Z;
  endReachedCalls : nat
}.

(** [useRef<number>(-1)], nothing notified yet. *)
Definition initialDetector : Detector :=
  {| lastVirtualRowRef := -1; endReachedCalls := 0 |}.

(** The test of lines 89-92. *)
Definition crosses (lastRowIndex rowCount endReachedThreshold : Z) (d : Detector) : bool :=
  (rowCount - endReachedThreshold <=? lastRowIndex)%Z
  && negb (lastRowIndex =? lastVirtualRowRef d)%Z.

(** One run of the effect of lines 81-96. *)
Definition endReachedEffect (endReached : option Callback)
    (virtualRows : list VirtualItem) (rowCount endReachedThreshold : Z)
    (d : Detector) : Detector :=
  match endReached, last virtualRows with
  | None, _ => d
  | Some _, None => d
  | Some _, Some lastVirtualRow =>
      let lastRowIndex := Z.of_nat (index lastVirtualRow) in
      if crosses lastRowIndex rowCount endReachedThreshold d
      then {| lastVirtualRowRef := lastRowIndex;
              endReachedCalls := S (endReachedCalls d) |}
      else d
  end.

(** The values one render hands to the effect. *)
Record Render : Type := {
  endReached : option Callback;
  virtualRows : list VirtualItem;
  renderRowCount : Z;
  endReachedThreshold : Z
}.

Definition effectOf (d : Detector) (r : Render) : Detector :=
  endReachedEffect (endReached r) (virtualRows r) (renderRowCount r)
    (endReachedThreshold r) d.

(** The detector after the effects of a series of renders. *)
Definition runEffects (renders : list Render) (d : Detector) : Detector :=
  foldl effectOf d renders.

(** Whether a run of the effect called [endReached()]. *)
Definition notifies (endReached : option Callback) (virtualRows : list VirtualItem)
    (rowCount endReachedThreshold : Z) (d : Detector) : Prop :=
  endReachedCalls (endReachedEffect endReached virtualRows rowCount endReachedThreshold d)
  = S (endReachedCalls d).

(** A window of virtual rows with the indices [lo, lo + n). *)
Definition rowsOf (lo n : nat) : list VirtualItem :=
  map (fun i => {| index := i; start := 0; key := i |}) (seq lo n).

(** The window of the rows [0 .. lastIndex]. *)
Definition windowTo (lastIndex : nat) : list VirtualItem := rowsOf 0 (S lastIndex).

(** A render with a callback whose window ends at [lastIndex]. *)
Definition renderTo (lastIndex : nat) (rowCount threshold : Z) : Render :=
  {| endReached := Some callback; virtualRows := windowTo lastIndex;
     renderRowCount := rowCount; endReachedThreshold := threshold |}.

(** A render whose last virtual row, if any, is more than the threshold
    away from the end. *)
Definition belowThreshold (r : Render) : Prop :=
  forall v, last (virtualRows r) = Some v ->
            (Z.of_nat (index v) < renderRowCount r - endReachedThreshold r)%Z.

(** The reading "only a new maximum past the watermark triggers": in
    every state the detector can be in, a render that notifies has its
    last index above the stored watermark. *)
Definition firesOnlyOnNewMax : Prop :=
  forall (renders : list Render) (r : Render) (v : VirtualItem),
    last (virtualRows r) = Some v ->
    endReachedCalls (effectOf (runEffects renders initialDetector) r)
    = S (endReachedCalls (runEffects renders initialDetector)) ->
    (lastVirtualRowRef (runEffects renders initialDetector) < Z.of_nat (index v))%Z.

(** The windowing contract the effect relies on: the virtualizer is given
    [count: rowCount] and returns indices below it. *)
Definition windowWithin (virtualRows : list VirtualItem) (rowCount : Z) : Prop :=
  Forall (fun v => (Z.of_nat (index v) < rowCount)%Z) virtualRows.

(** ** Column detection, continued (lines 47-57) *)

(** The [cols] of line 48. *)
Definition detectedCount (style : CSSStyleDeclaration) : nat :=
  length (split " " (gridTemplateColumns style)).

(** The occurrences of a character in a string. *)
Fixpoint occurrences (c : ascii) (s : string) : nat :=
  match s with
  | EmptyString => 0
  | String c' s' => (if Ascii.eqb c' c then 1 else 0) + occurrences c s'
  end.

(** [Array.prototype.join] with a one-character separator. *)
Fixpoint join (sep : ascii) (pieces : list string) : string :=
  match pieces with
  | [] => EmptyString
  | [piece] => piece
  | piece :: rest => String.append piece (String sep (join sep rest))
  end.

(** The style of the last pass that found the probe element. *)
Definition lastProbed (passes : list (option CSSStyleDeclaration))
  : option CSSStyleDeclaration :=
  last (omap id passes).

(** ** Rendering (lines 127-147) *)

(** The cells of one rendered row (lines 128-143): for each item of the
    row, the position [startIdx + i] used as fragment key and handed to
    [renderItem], with what [renderItem] returns. *)
Definition renderRow {T R} (items : list T) (renderItem : T -> nat -> R)
    (columns : nat) (virtualRow : VirtualItem) : list (nat * R) :=
  let startIdx := index virtualRow * columns in
  imap (fun i item => (startIdx + i, renderItem item (startIdx + i)))
       (rowItems items columns (index virtualRow)).

(** The rendered rows of lines 127-147, in window order. *)
Definition renderRows {T R} (items : list T) (renderItem : T -> nat -> R)
    (columns : nat) (virtualRows : list VirtualItem) : list (list (nat * R)) :=
  map (renderRow items renderItem columns) virtualRows.

(** All cells of a render. *)
Definition renderedCells {T R} (items : list T) (renderItem : T -> nat -> R)
    (columns : nat) (virtualRows : list VirtualItem) : list (nat * R) :=
  concat (renderRows items renderItem columns virtualRows).

(** ** The effect on the component's own row count (lines 59 and 81-96) *)

(** The effect with [rowCount] as line 59 computes it.  A comparison
    against [Infinity - threshold] or [NaN - threshold] is false; against
    a finite row count, [lastRowIndex >= rowCount - threshold] on integers
    is the comparison with the row count's ceiling. *)
Definition gridEffect {T} (items : list T) (columns : nat)
    (endReached : option Callback) (virtualRows : list VirtualItem)
    (endReachedThreshold : Z) (d : Detector) : Detector :=
  match rowCount items columns with
  | Num q => endReachedEffect endReached virtualRows (Qceiling q) endReachedThreshold d
  | Infinity => d
  | NaN => d
  end.

(** A render that has a callback and whose last virtual row is within the
    threshold of the end. *)
Definition qualifies (r : Render) : Prop :=
  exists cb v, endReached r = Some cb /\ last (virtualRows r) = Some v
    /\ (renderRowCount r - endReachedThreshold r <= Z.of_nat (index v))%Z.

(** The index of the last virtual row of a render, [-1] for an empty
    window. *)
Definition lastIndexOf (r : Render) : Z :=
  match last (virtualRows r) with
  | Some v => Z.of_nat (index v)
  | None => (-1)%Z
  end.

(** Consecutive renders end at different rows, starting from the
    watermark [w]. *)
Fixpoint changesEachTime (w : Z) (renders : list Render) : Prop :=
  match renders with
  | [] => True
  | r :: rest => lastIndexOf r <> w /\ changesEachTime (lastIndexOf r) rest
  end.

(** ** The windowing engine

    [useVirtualizer], [getVirtualItems], [getTotalSize] and
    [measureElement] come from the imported package (line 3), whose
    sources are not part of [src/]. *)

Module ScrollWindowEngine.

(** Modelled from the spec: the engine state of section 4.3, which the
    component obtains from [useVirtualizer] (not under [src/]): "row size
    table (keyed by row index), total row count, overscan count, estimate
    default, current scroll offset and viewport extent". *)
Record Engine : Type := {
  sizeTable : gmap nat Z;
  totalRows : nat;
  overscan : nat;
  estimateDefault : Z;
  scrollOffset : Z;
  viewportExtent : Z
}.

(** Modelled from the spec: a fresh engine, as [useVirtualizer] (not under
    [src/]) is configured at lines 61-75; no row is measured yet. *)
Definition create (count overscan : nat) (estimateRowHeight : Z) (offset extent : Z)
  : Engine :=
  {| sizeTable := ∅; totalRows := count; overscan := overscan;
     estimateDefault := estimateRowHeight;
     scrollOffset := offset; viewportExtent := extent |}.

Definition withOverscan (ov : nat) (e : Engine) : Engine :=
  {| sizeTable := sizeTable e; totalRows := totalRows e; overscan := ov;
     estimateDefault := estimateDefault e;
     scrollOffset := scrollOffset e; viewportExtent := viewportExtent e |}.

(** Modelled from the spec: the current size of a row, missing with the
    virtualizer: the table entry, "falling back to the estimate default
    for unmeasured rows". *)
Definition sizeOf (e : Engine) (r : nat) : Z :=
  default (estimateDefault e) (sizeTable e !! r).

Definition sumZ (l : list Z) : Z := foldr Z.add 0%Z l.

(** Modelled from the spec: [offsetOf(r)], missing with the virtualizer:
    "sum of sizes of rows [0, r)". *)
Definition offsetOf (e : Engine) (r : nat) : Z :=
  sumZ (map (sizeOf e) (seq 0 r)).

(** Modelled from the spec: [totalSize()], missing with the virtualizer
    ([getTotalSize], line 112): "sum over all rows' current table
    entries (falling back to the estimate default for unmeasured
    rows)". *)
Definition totalSize (e : Engine) : Z :=
  sumZ (map (sizeOf e) (seq 0 (totalRows e))).

(** Modelled from the spec: [reportMeasured(r, heightPx)], missing with
    the virtualizer ([measureElement], line 135): "overwrites the
    size-table entry for row r". *)
Definition reportMeasured (e : Engine) (call : nat * Z) : Engine :=
  {| sizeTable := <[call.1 := call.2]> (sizeTable e); totalRows := totalRows e;
     overscan := overscan e; estimateDefault := estimateDefault e;
     scrollOffset := scrollOffset e; viewportExtent := viewportExtent e |}.

Definition reportAll (calls : list (nat * Z)) (e : Engine) : Engine :=
  foldl reportMeasured e calls.

(** The height most recently reported for row [r] in a sequence of calls
    (oldest first), if any. *)
Fixpoint latest (calls : list (nat * Z)) (r : nat) : option Z :=
  match calls with
  | [] => None
  | (r', h) :: rest =>
      match latest rest r with
      | Some h' => Some h'
      | None => if decide (r' = r) then Some h else None
      end
  end.

(** Modelled from the spec: the two searches of [visibleWindow()],
    missing with the virtualizer: "find the first row whose cumulative
    offset + size exceeds (scrollOffset - 0); find the last row whose
    cumulative offset is less than (scrollOffset + viewportExtent)". *)
Definition firstVisible (e : Engine) : option nat :=
  head (filter (fun r => (scrollOffset e < offsetOf e r + sizeOf e r)%Z)
          (seq 0 (totalRows e))).

Definition lastVisible (e : Engine) : option nat :=
  last (filter (fun r => (offsetOf e r < scrollOffset e + viewportExtent e)%Z)
          (seq 0 (totalRows e))).

(** Modelled from the spec: [visibleWindow()], missing with the
    virtualizer ([getVirtualItems], line 77): "expand both ends by
    overscan rows, clamped to [0, rowCount)"; "rowCount = 0 -> empty
    visible window".  Where no row qualifies for one of the searches the
    window is empty. *)
Definition visibleWindow (e : Engine) : list nat :=
  match firstVisible e, lastVisible e with
  | Some first, Some last =>
      let lo := first - overscan e in
      let hi := Nat.min (last + overscan e) (totalRows e - 1) in
      seq lo (S hi - lo)
  | _, _ => []
  end.

End ScrollWindowEngine.

(** * Properties *)

(** ** Row count *)

Lemma Zceil_quot (n c : Z) :
  (0 < c)%Z -> (- (- n / c) = (n + c - 1) / c)%Z.
Proof.
  intros Hc.
  apply (Z.div_unique_pos (n + c - 1) c (- (- n / c)) (c - 1 - (- n) mod c)).
  - pose proof (Z.mod_pos_bound (- n) c Hc). lia.
  - pose proof (Z.div_mod (- n) c). lia.
Qed.

Lemma Qceiling_lengths (n c : nat) :
  Qceiling (Z.of_nat n # Pos.of_nat (S c)) = Z.of_nat (ceil_div n (S c)).
Proof.
  unfold ceil_div, Qceiling, Qfloor, Qopp; cbn [Qnum Qden].
  rewrite Nat2Z.inj_div.
  replace (Z.pos (Pos.of_nat (S c))) with (Z.of_nat (S c)) by lia.
  rewrite Zceil_quot by lia. f_equal. lia.
Qed.

Lemma rowCount_ceil_div {T} (items : list T) (columns : nat) :
  1 <= columns -> rowCount items columns = int (ceil_div (length items) columns).
Proof.
  intros Hc. destruct columns as [|c]; [lia|].
  unfold rowCount, int, js_div, Math_ceil. by rewrite Qceiling_lengths.
Qed.

Lemma ceil_div_upper (N C : nat) : 1 <= C -> N <= ceil_div N C * C.
Proof.
  intros HC. unfold ceil_div.
  pose proof (Nat.div_mod_eq (N + C - 1) C) as Hdm.
  pose proof (Nat.mod_upper_bound (N + C - 1) C ltac:(lia)). nia.
Qed.

Lemma ceil_div_least (N C j : nat) : 1 <= C -> N <= j * C -> ceil_div N C <= j.
Proof.
  intros HC Hj. unfold ceil_div.
  apply Nat.lt_succ_r, Nat.Div0.div_lt_upper_bound. nia.
Qed.

Lemma ceil_div_0 (C : nat) : 1 <= C -> ceil_div 0 C = 0.
Proof. intros HC. unfold ceil_div. apply Nat.div_small. lia. Qed.

(** C1: for N >= 0 items and C >= 1 columns the computed row count is
    ceil(N / C), the least integer k with N <= k * C, and no items give
    zero rows. *)
Theorem rowCount_is_ceiling {T} (items : list T) (C : nat) :
  1 <= C ->
  rowCount items C = int (ceil_div (length items) C)
  /\ length items <= ceil_div (length items) C * C
  /\ (forall j, length items <= j * C -> ceil_div (length items) C <= j)
  /\ rowCount (@nil T) C = int 0.
Proof.
  intros HC. split; [by apply rowCount_ceil_div|].
  split; [by apply ceil_div_upper|].
  split; [intros j; by apply ceil_div_least|].
  rewrite rowCount_ceil_div by done. cbn [length]. by rewrite ceil_div_0.
Qed.

Lemma rowCount_is_ceiling_witness :
  1 <= 3
  /\ rowCount [10; 20; 30; 40; 50; 60; 70] 3 = int 3
  /\ rowCount (@nil nat) 3 = int 0.
Proof.
  destruct (rowCount_is_ceiling [10; 20; 30; 40; 50; 60; 70] 3 ltac:(lia))
    as (H1 & _ & _ & H0).
  split; [lia|]. split; [exact H1 | exact H0].
Defined.

(** ** Row partition *)

Lemma slice_nat {T} (l : list T) (a b : nat) :
  slice l (Z.of_nat a) (Z.of_nat b)
  = take (Nat.min b (length l) - Nat.min a (length l)) (drop (Nat.min a (length l)) l).
Proof.
  unfold slice.
  destruct (Z.ltb_spec (Z.of_nat a) 0); [lia|].
  destruct (Z.ltb_spec (Z.of_nat b) 0); [lia|].
  f_equal; [|f_equal]; lia.
Qed.

Lemma rowItems_range {T} (items : list T) (C r : nat) :
  rowItems items C r
  = items_range items (r * C) (Nat.min ((r + 1) * C) (length items)).
Proof.
  unfold rowItems, items_range.
  replace (Z.of_nat r * Z.of_nat C + Z.of_nat C)%Z with (Z.of_nat ((r + 1) * C)) by lia.
  replace (Z.of_nat r * Z.of_nat C)%Z with (Z.of_nat (r * C)) by lia.
  rewrite slice_nat.
  destruct (Nat.le_gt_cases (r * C) (length items)) as [Hle|Hgt].
  - rewrite (Nat.min_l (r * C)) by done. done.
  - rewrite (drop_ge items (r * C)) by lia.
    rewrite (drop_ge items (Nat.min _ _)) by lia.
    by rewrite !take_nil.
Qed.

Lemma rowItems_lookup {T} (items : list T) (C r i : nat) :
  i < C -> rowItems items C r !! i = items !! (r * C + i).
Proof.
  intros Hi. rewrite rowItems_range. unfold items_range.
  destruct (Nat.le_gt_cases (length items) (r * C + i)) as [Hout|Hin].
  - rewrite (lookup_ge_None_2 items) by done.
    apply lookup_ge_None_2. rewrite length_take, length_drop. lia.
  - rewrite lookup_take_lt by lia. by rewrite lookup_drop.
Qed.

Lemma rowItems_length {T} (items : list T) (C r : nat) :
  length (rowItems items C r) = Nat.min ((r + 1) * C) (length items) - r * C.
Proof.
  rewrite rowItems_range. unfold items_range.
  rewrite length_take, length_drop. lia.
Qed.

Lemma rowItems_concat_prefix {T} (items : list T) (C k : nat) :
  concat (map (rowItems items C) (seq 0 k)) = take (k * C) items.
Proof.
  induction k as [|k IH]; [done|].
  rewrite seq_S, map_app, concat_app, IH. cbn [map concat Nat.add].
  rewrite app_nil_r, rowItems_range. unfold items_range.
  rewrite take_take_drop.
  destruct (Nat.le_gt_cases ((k + 1) * C) (length items)) as [Hle|Hgt].
  - f_equal. lia.
  - rewrite !take_ge; [done | lia | lia].
Qed.

Lemma rowItems_beyond {T} (items : list T) (C r : nat) :
  1 <= C -> ceil_div (length items) C <= r -> rowItems items C r = [].
Proof.
  intros HC Hr. apply length_zero_iff_nil. rewrite rowItems_length.
  pose proof (ceil_div_upper (length items) C HC). nia.
Qed.

(** C2: the items of row r are the slice items[r*C : min((r+1)*C, N)];
    the slices of the rows 0 .. ceil(N/C)-1, in order, make up the whole
    sequence, so their lengths add up to N; from row ceil(N/C) on the
    slice is empty. *)
Theorem rowItems_partition {T} (items : list T) (C : nat) :
  1 <= C ->
  (forall r, rowItems items C r
             = items_range items (r * C) (Nat.min ((r + 1) * C) (length items)))
  /\ rowCount items C = int (ceil_div (length items) C)
  /\ concat (map (rowItems items C) (seq 0 (ceil_div (length items) C))) = items
  /\ sum_list (map (fun r => length (rowItems items C r))
                 (seq 0 (ceil_div (length items) C))) = length items
  /\ (forall r, ceil_div (length items) C <= r -> rowItems items C r = []).
Proof.
  intros HC.
  assert (Hcat : concat (map (rowItems items C) (seq 0 (ceil_div (length items) C)))
                 = items).
  { rewrite rowItems_concat_prefix. apply take_ge. by apply ceil_div_upper. }
  split; [intros r; apply rowItems_range|].
  split; [by apply rowCount_ceil_div|].
  split; [exact Hcat|].
  split; [|intros r; by apply rowItems_beyond].
  transitivity (length (concat (map (rowItems items C)
                                   (seq 0 (ceil_div (length items) C)))));
    [|by rewrite Hcat].
  rewrite length_concat. by rewrite <- list_fmap_compose.
Qed.

Lemma rowItems_partition_witness :
  1 <= 3
  /\ rowItems [10; 20; 30; 40; 50; 60; 70] 3 2 = [70]
  /\ concat (map (rowItems [10; 20; 30; 40; 50; 60; 70] 3) (seq 0 3))
     = [10; 20; 30; 40; 50; 60; 70]
  /\ rowItems [10; 20; 30; 40; 50; 60; 70] 3 3 = [].
Proof.
  destruct (rowItems_partition [10; 20; 30; 40; 50; 60; 70] 3 ltac:(lia))
    as (Hr & _ & Hcat & _ & Hout).
  split; [lia|]. split; [exact (Hr 2)|]. split; [exact Hcat|].
  apply Hout. vm_compute. lia.
Defined.

(** ** Column detection *)

Lemma split_nonempty (sep : ascii) (s : string) : 1 <= length (split sep s).
Proof.
  induction s as [|c s IH]; cbn [split length]; [lia|].
  destruct (Ascii.eqb c sep); cbn [length]; [lia|].
  destruct (split sep s); cbn [length]; lia.
Qed.

(** The [cols > 0] test of line 49 holds for every resolved template. *)
Lemma detected_count_positive (style : CSSStyleDeclaration) :
  (0 <? length (split " " (gridTemplateColumns style))) = true.
Proof. apply Nat.ltb_lt. pose proof (split_nonempty " " (gridTemplateColumns style)). lia. Qed.

Lemma detectColumns_Some (probeRef : option CSSStyleDeclaration) (columns cols : nat) :
  detectColumns probeRef columns = Some cols <->
  exists style, probeRef = Some style
    /\ cols = length (split " " (gridTemplateColumns style))
    /\ cols <> columns.
Proof.
  unfold detectColumns. split.
  - destruct probeRef as [style|]; [|done].
    rewrite detected_count_positive. cbn [andb].
    destruct (Nat.eqb_spec (length (split " " (gridTemplateColumns style))) columns);
      cbn [negb]; [done|].
    intros [= <-]. by exists style.
  - intros (style & -> & -> & Hne).
    rewrite detected_count_positive. cbn [andb].
    by destruct (Nat.eqb_spec (length (split " " (gridTemplateColumns style))) columns).
Qed.

(** A pass publishes only a count that differs from the published one,
    and a pass that detects the published count changes nothing. *)
Lemma detectColumns_only_on_change (probeRef : option CSSStyleDeclaration) (columns : nat) :
  (forall cols, detectColumns probeRef columns = Some cols -> cols <> columns)
  /\ (forall style, probeRef = Some style ->
        length (split " " (gridTemplateColumns style)) = columns ->
        detectColumns probeRef columns = None).
Proof.
  split.
  - intros cols H. apply detectColumns_Some in H as (? & _ & _ & ?). done.
  - intros style -> Heq. unfold detectColumns.
    rewrite Heq, Nat.eqb_refl. by rewrite andb_false_r.
Qed.

(** A pass with no probe element publishes nothing. *)
Lemma detectColumns_no_probe (columns : nat) : detectColumns None columns = None.
Proof. done. Qed.

Lemma columnsAfter_positive (columns : nat) (probeRef : option CSSStyleDeclaration) :
  1 <= columns -> 1 <= columnsAfter columns probeRef.
Proof.
  intros Hc. unfold columnsAfter.
  destruct (detectColumns probeRef columns) as [cols|] eqn:Hd; [|done].
  apply detectColumns_Some in Hd as (style & _ & -> & _). apply split_nonempty.
Qed.

Lemma foldl_columnsAfter_positive (passes : list (option CSSStyleDeclaration)) :
  forall columns, 1 <= columns -> 1 <= foldl columnsAfter columns passes.
Proof.
  induction passes as [|p passes IH]; intros columns Hc; cbn [foldl]; [done|].
  by apply IH, columnsAfter_positive.
Qed.

(** With zero columns line 59 would not yield a row count. *)
Lemma rowCount_zero_columns {T} (items : list T) :
  rowCount items 0 = match items with [] => NaN | _ :: _ => Infinity end.
Proof. by destruct items. Qed.

(** C7: an empty resolved template, and the template "none", split into
    one piece, pass the [cols > 0] test and are published over the
    previous count 3. *)
Theorem detectColumns_empty_template :
  detectColumns (Some {| gridTemplateColumns := "" |}) 3 = Some 1
  /\ columnsAfter 3 (Some {| gridTemplateColumns := "" |}) = 1
  /\ columnsAfter 3 (Some {| gridTemplateColumns := "none" |}) = 1
  /\ columnsAfter 3 (Some {| gridTemplateColumns := "100px 100px 100px" |}) = 3
  /\ columnsAfter 3 (Some {| gridTemplateColumns := "80px 80px 80px 80px" |}) = 4.
Proof. repeat split; reflexivity. Qed.

(** C8: the column count starts at 3 and stays at least 1 through every
    series of detection passes, so the row count of line 59 is the finite
    number ceil(N / C), never the [Infinity] or [NaN] of a division by
    zero. *)
Theorem columns_always_positive (passes : list (option CSSStyleDeclaration)) :
  columnsTrace [] = 3
  /\ 1 <= columnsTrace passes
  /\ (forall probeRef, 1 <= columnsAfter (columnsTrace passes) probeRef)
  /\ (forall T (items : list T),
        rowCount items (columnsTrace passes)
        = int (ceil_div (length items) (columnsTrace passes))).
Proof.
  assert (Hpos : 1 <= columnsTrace passes).
  { unfold columnsTrace. apply foldl_columnsAfter_positive. unfold initialColumns. lia. }
  split; [done|]. split; [done|].
  split; [intros p; by apply columnsAfter_positive|].
  intros T items. by apply rowCount_ceil_div.
Qed.

(** ** Scroll surface selection *)

Lemma Qgt_bool_true (a b : Q) : Qgt_bool a b = true <-> (b < a)%Q.
Proof.
  unfold Qgt_bool. rewrite negb_true_iff, <- not_true_iff_false, Qle_bool_iff.
  split; [apply Qnot_le_lt | apply Qlt_not_le].
Qed.

Lemma getScrollElement_root (root : RootMetrics) :
  getScrollElement (browser root) = Returns documentElement
  <-> scrolled root \/ overflows root.
Proof.
  unfold getScrollElement, browser, scrolled, overflows. cbn [hasWindow document].
  rewrite <- Qgt_bool_true, <- Z.ltb_lt, <- orb_true_iff.
  destruct (Qgt_bool (scrollTop root) 0 || (clientHeight root <? scrollHeight root)%Z);
    split; done.
Qed.

Lemma getScrollElement_browser_returns (root : RootMetrics) :
  getScrollElement (browser root) = Returns documentElement
  \/ getScrollElement (browser root) = Returns body.
Proof.
  unfold getScrollElement, browser. cbn [hasWindow document].
  destruct (_ || _); [by left | by right].
Qed.

(** A root element overscrolled to offset -5 with no overflow reports a
    nonzero scroll offset, and the body is selected. *)
Lemma getScrollElement_negative_offset :
  getScrollElement
    (browser {| scrollTop := -5; scrollHeight := 900; clientHeight := 900 |})
  = Returns body
  /\ ~ selectsRootWhenNonzero.
Proof.
  split; [reflexivity|]. intros H.
  specialize (H {| scrollTop := -5; scrollHeight := 900; clientHeight := 900 |}).
  assert (Hroot : getScrollElement
                    (browser {| scrollTop := -5; scrollHeight := 900; clientHeight := 900 |})
                  = Returns documentElement).
  { apply H. left. cbn [scrollTop]. intros Hz. discriminate Hz. }
  discriminate Hroot.
Qed.

(** C9 (amended): with window and document present the root element is
    selected exactly when it reports a scroll offset greater than zero or
    its content height exceeds its client height, the body otherwise; two
    calls that agree on the two conditions select the same element.
    Without a window the body is selected if a document exists, and
    without a document the call raises. *)
Theorem getScrollElement_policy :
  (forall root, getScrollElement (browser root) = Returns documentElement
                <-> scrolled root \/ overflows root)
  /\ (forall root, getScrollElement (browser root) = Returns body
                   <-> ~ (scrolled root \/ overflows root))
  /\ (forall root1 root2,
        (scrolled root1 <-> scrolled root2) ->
        (overflows root1 <-> overflows root2) ->
        getScrollElement (browser root1) = getScrollElement (browser root2))
  /\ (forall root,
        getScrollElement {| hasWindow := false; document := Some root |} = Returns body)
  /\ (forall w, getScrollElement {| hasWindow := w; document := None |} = ReferenceError).
Proof.
  assert (Hbody : forall root, getScrollElement (browser root) = Returns body
                               <-> ~ (scrolled root \/ overflows root)).
  { intros root. rewrite <- getScrollElement_root.
    destruct (getScrollElement_browser_returns root) as [-> | ->]; split; done. }
  split; [apply getScrollElement_root|]. split; [exact Hbody|].
  split; [|split; [done|by intros []]].
  intros root1 root2 Hs Ho.
  destruct (getScrollElement_browser_returns root2) as [H2 | H2]; rewrite H2.
  - apply getScrollElement_root. apply getScrollElement_root in H2. tauto.
  - apply Hbody. apply Hbody in H2. tauto.
Qed.

Lemma getScrollElement_policy_witness :
  getScrollElement
    (browser {| scrollTop := 120; scrollHeight := 2400; clientHeight := 900 |})
  = getScrollElement
      (browser {| scrollTop := 1 # 2; scrollHeight := 1000; clientHeight := 900 |})
  /\ getScrollElement
       (browser {| scrollTop := -5; scrollHeight := 900; clientHeight := 900 |})
     = Returns body.
Proof.
  destruct getScrollElement_policy as (_ & Hbody & Hpure & _).
  split.
  - apply Hpure; unfold scrolled, overflows; cbn; split; intros _; reflexivity.
  - apply Hbody. unfold scrolled, overflows. cbn. intros [H | H]; discriminate H.
Defined.

(** ** End-of-list detection *)

Lemma endReachedEffect_last (cb : Callback) (rows : list VirtualItem)
    (v : VirtualItem) (rc thr : Z) (d : Detector) :
  last rows = Some v ->
  endReachedEffect (Some cb) rows rc thr d
  = if crosses (Z.of_nat (index v)) rc thr d
    then {| lastVirtualRowRef := Z.of_nat (index v);
            endReachedCalls := S (endReachedCalls d) |}
    else d.
Proof. intros Hlast. unfold endReachedEffect. by rewrite Hlast. Qed.

Lemma crosses_true (i rc thr : Z) (d : Detector) :
  crosses i rc thr d = true <-> (rc - thr <= i)%Z /\ i <> lastVirtualRowRef d.
Proof.
  unfold crosses. rewrite andb_true_iff, negb_true_iff, Z.leb_le, Z.eqb_neq. done.
Qed.

Lemma endReachedEffect_skip (rows : list VirtualItem) (rc thr : Z) (d : Detector)
    (endReached : option Callback) :
  endReached = None \/ rows = [] ->
  endReachedEffect endReached rows rc thr d = d.
Proof.
  intros [-> | ->]; [done|]. unfold endReachedEffect. by destruct endReached.
Qed.

Lemma endReachedEffect_cases (endReached : option Callback) (rows : list VirtualItem)
    (rc thr : Z) (d : Detector) :
  endReachedEffect endReached rows rc thr d = d
  \/ exists cb v, endReached = Some cb /\ last rows = Some v
       /\ (rc - thr <= Z.of_nat (index v))%Z
       /\ Z.of_nat (index v) <> lastVirtualRowRef d
       /\ endReachedEffect endReached rows rc thr d
          = {| lastVirtualRowRef := Z.of_nat (index v);
               endReachedCalls := S (endReachedCalls d) |}.
Proof.
  destruct endReached as [cb|]; [|by left].
  destruct (last rows) as [v|] eqn:Hlast;
    [|left; unfold endReachedEffect; by rewrite Hlast].
  rewrite (endReachedEffect_last cb rows v) by done.
  destruct (crosses _ rc thr d) eqn:Hc; [|by left].
  right. exists cb, v. apply crosses_true in Hc as [??]. done.
Qed.

Lemma notifies_iff (cb : Callback) (rows : list VirtualItem) (v : VirtualItem)
    (rc thr : Z) (d : Detector) :
  last rows = Some v ->
  notifies (Some cb) rows rc thr d
  <-> (rc - thr <= Z.of_nat (index v))%Z /\ Z.of_nat (index v) <> lastVirtualRowRef d.
Proof.
  intros Hlast. unfold notifies. rewrite (endReachedEffect_last cb rows v) by done.
  rewrite <- crosses_true. destruct (crosses _ rc thr d); cbn; split; try done; lia.
Qed.

Lemma effectOf_belowThreshold (r : Render) (d : Detector) :
  belowThreshold r -> effectOf d r = d.
Proof.
  intros Hb. unfold effectOf.
  destruct (endReachedEffect_cases (endReached r) (virtualRows r) (renderRowCount r)
              (endReachedThreshold r) d) as [H | (cb & v & _ & Hlast & Hge & _)]; [done|].
  specialize (Hb v Hlast). lia.
Qed.

Lemma runEffects_belowThreshold (renders : list Render) (d : Detector) :
  Forall belowThreshold renders -> runEffects renders d = d.
Proof.
  unfold runEffects. induction 1 as [|r renders Hr _ IH]; cbn [foldl]; [done|].
  by rewrite effectOf_belowThreshold.
Qed.

Lemma last_windowTo (i : nat) :
  last (windowTo i) = Some {| index := i; start := 0; key := i |}.
Proof.
  unfold windowTo, rowsOf. rewrite seq_S, map_app. cbn [map Nat.add]. apply last_snoc.
Qed.

(** C10: without an [endReached] callback, or with no virtual rows, a run
    of the effect leaves the watermark and the call count as they were,
    whatever the window, the row count and the threshold. *)
Theorem endReachedEffect_frame (endReached : option Callback)
    (virtualRows : list VirtualItem) (rowCount threshold : Z) (d : Detector) :
  endReached = None \/ virtualRows = [] ->
  endReachedEffect endReached virtualRows rowCount threshold d = d
  /\ lastVirtualRowRef (endReachedEffect endReached virtualRows rowCount threshold d)
     = lastVirtualRowRef d
  /\ ~ notifies endReached virtualRows rowCount threshold d.
Proof.
  intros H. unfold notifies. rewrite (endReachedEffect_skip _ _ _ _ _ H).
  split; [done|]. split; [done|]. lia.
Qed.

Lemma endReachedEffect_frame_witness :
  endReachedEffect None (windowTo 9) 10 2 {| lastVirtualRowRef := 4; endReachedCalls := 1 |}
  = {| lastVirtualRowRef := 4; endReachedCalls := 1 |}
  /\ endReachedEffect (Some callback) [] 10 2 initialDetector = initialDetector.
Proof.
  split.
  - apply (endReachedEffect_frame None (windowTo 9) 10 2). left. reflexivity.
  - apply (endReachedEffect_frame (Some callback) [] 10 2). right. reflexivity.
Defined.

Lemma effectOf_never (r : Render) (d : Detector) :
  windowWithin (virtualRows r) (renderRowCount r) ->
  (endReachedThreshold r <= 0)%Z \/ renderRowCount r = 0%Z ->
  effectOf d r = d.
Proof.
  intros Hwin Hcfg. apply effectOf_belowThreshold. intros v Hlast.
  apply last_Some_elem_of in Hlast.
  unfold windowWithin in Hwin. rewrite Forall_forall in Hwin.
  specialize (Hwin v Hlast). lia.
Qed.

(** C5: through any series of renders whose windows lie below the row
    count, [endReached()] is never called by a render with a threshold of
    0 or less, nor by one with a row count of 0. *)
Theorem endReached_never_fires (renders : list Render) (d : Detector) :
  Forall (fun r => windowWithin (virtualRows r) (renderRowCount r)) renders ->
  Forall (fun r => (endReachedThreshold r <= 0)%Z \/ renderRowCount r = 0%Z) renders ->
  runEffects renders d = d
  /\ endReachedCalls (runEffects renders d) = endReachedCalls d
  /\ Forall (fun r => forall d', ~ notifies (endReached r) (virtualRows r)
                                     (renderRowCount r) (endReachedThreshold r) d')
       renders.
Proof.
  intros Hwin Hcfg.
  assert (Hstep : Forall (fun r => forall d', effectOf d' r = d') renders).
  { rewrite Forall_forall in *. intros r Hr d'. apply effectOf_never; auto. }
  assert (Hrun : runEffects renders d = d).
  { unfold runEffects. clear Hwin Hcfg. revert d.
    induction Hstep as [|r renders Hr _ IH]; intros d; cbn [foldl]; [done|].
    by rewrite Hr. }
  split; [done|]. split; [by rewrite Hrun|].
  eapply Forall_impl; [exact Hstep|]. intros r Hr d'. cbn beta.
  unfold notifies. unfold effectOf in Hr. rewrite Hr. lia.
Qed.

Lemma endReached_never_fires_witness :
  endReachedCalls
    (runEffects [renderTo 8 10 0; renderTo 9 10 (-1);
                 {| endReached := Some callback; virtualRows := [];
                    renderRowCount := 0; endReachedThreshold := 2 |}]
       initialDetector) = 0.
Proof.
  refine (proj1 (proj2 (endReached_never_fires _ initialDetector _ _))).
  - repeat constructor; cbn; lia.
  - repeat constructor; cbn; lia.
Defined.

(** With 10 rows and threshold 2, windows ending at rows 8, 9 and 8 again
    notify three times: the return to row 8 notifies although 8 is below
    the stored watermark 9. *)
Lemma endReached_fires_below_watermark :
  runEffects [renderTo 8 10 2] initialDetector
  = {| lastVirtualRowRef := 8; endReachedCalls := 1 |}
  /\ runEffects [renderTo 8 10 2; renderTo 9 10 2] initialDetector
     = {| lastVirtualRowRef := 9; endReachedCalls := 2 |}
  /\ runEffects [renderTo 8 10 2; renderTo 9 10 2; renderTo 8 10 2] initialDetector
     = {| lastVirtualRowRef := 8; endReachedCalls := 3 |}
  /\ ~ firesOnlyOnNewMax.
Proof.
  split; [reflexivity|]. split; [reflexivity|]. split; [reflexivity|].
  intros H.
  specialize (H [renderTo 8 10 2; renderTo 9 10 2] (renderTo 8 10 2)
                {| index := 8; start := 0; key := 8 |} eq_refl eq_refl).
  vm_compute in H. discriminate H.
Qed.

(** C4 (amended): with 10 rows and threshold 2 the detector stays silent
    below row 8 and notifies once when the last visible row first reaches
    8; it does not notify while the last visible row equals the stored
    watermark, also after the window has dropped below the threshold in
    between; it notifies, once, exactly for a last visible row at or past
    rowCount - threshold that differs from the watermark; and with 20 rows
    it notifies again at row 18. *)
Theorem endReached_watermark (cb : Callback) :
  (forall renders,
      Forall belowThreshold renders ->
      runEffects renders initialDetector = initialDetector
      /\ endReachedEffect (Some cb) (windowTo 8) 10 2 (runEffects renders initialDetector)
         = {| lastVirtualRowRef := 8; endReachedCalls := 1 |})
  /\ (forall d rows v rc thr,
        last rows = Some v -> Z.of_nat (index v) = lastVirtualRowRef d ->
        endReachedEffect (Some cb) rows rc thr d = d)
  /\ (forall d below rows v rc thr,
        Forall belowThreshold below ->
        last rows = Some v -> Z.of_nat (index v) = lastVirtualRowRef d ->
        endReachedEffect (Some cb) rows rc thr (runEffects below d) = d)
  /\ (forall d rows v rc thr,
        last rows = Some v ->
        (notifies (Some cb) rows rc thr d
         <-> (rc - thr <= Z.of_nat (index v))%Z
             /\ Z.of_nat (index v) <> lastVirtualRowRef d)
        /\ (notifies (Some cb) rows rc thr d ->
            endReachedEffect (Some cb) rows rc thr d
            = {| lastVirtualRowRef := Z.of_nat (index v);
                 endReachedCalls := S (endReachedCalls d) |})
        /\ (~ notifies (Some cb) rows rc thr d ->
            endReachedEffect (Some cb) rows rc thr d = d))
  /\ (forall d,
        lastVirtualRowRef d = 8%Z \/ lastVirtualRowRef d = 9%Z ->
        endReachedEffect (Some cb) (windowTo 18) 20 2 d
        = {| lastVirtualRowRef := 18; endReachedCalls := S (endReachedCalls d) |}).
Proof.
  assert (Hstay : forall d rows v rc thr,
             last rows = Some v -> Z.of_nat (index v) = lastVirtualRowRef d ->
             endReachedEffect (Some cb) rows rc thr d = d).
  { intros d rows v rc thr Hlast Heq.
    rewrite (endReachedEffect_last cb rows v) by done.
    destruct (crosses _ rc thr d) eqn:Hc; [|done].
    apply crosses_true in Hc as [_ Hne]. done. }
  split; [|split; [exact Hstay|split; [|split]]].
  - intros renders Hbelow. rewrite runEffects_belowThreshold by done.
    split; [done|].
    by rewrite (endReachedEffect_last cb _ _ 10 2 initialDetector (last_windowTo 8)).
  - intros d below rows v rc thr Hbelow Hlast Heq.
    rewrite runEffects_belowThreshold by done. by eapply Hstay.
  - intros d rows v rc thr Hlast.
    split; [by apply notifies_iff|].
    unfold notifies. rewrite (endReachedEffect_last cb rows v) by done.
    destruct (crosses _ rc thr d); cbn; split; try done; lia.
  - intros d Hw.
    rewrite (endReachedEffect_last cb _ _ 20 2 d (last_windowTo 18)).
    assert (Hc : crosses (Z.of_nat 18) 20 2 d = true)
      by (apply crosses_true; cbn; lia).
    cbn [index]. by rewrite Hc.
Qed.

Lemma endReached_watermark_witness :
  endReachedEffect (Some callback) (windowTo 8) 10 2
    (runEffects [renderTo 3 10 2; renderTo 7 10 2] initialDetector)
  = {| lastVirtualRowRef := 8; endReachedCalls := 1 |}
  /\ endReachedEffect (Some callback) (windowTo 8) 10 2
       (runEffects [renderTo 5 10 2; renderTo 7 10 2]
          {| lastVirtualRowRef := 8; endReachedCalls := 1 |})
     = {| lastVirtualRowRef := 8; endReachedCalls := 1 |}
  /\ endReachedEffect (Some callback) (windowTo 9) 10 2
       {| lastVirtualRowRef := 9; endReachedCalls := 2 |}
     = {| lastVirtualRowRef := 9; endReachedCalls := 2 |}
  /\ notifies (Some callback) (windowTo 9) 10 2
       {| lastVirtualRowRef := 8; endReachedCalls := 1 |}
  /\ endReachedEffect (Some callback) (windowTo 18) 20 2
       {| lastVirtualRowRef := 9; endReachedCalls := 2 |}
     = {| lastVirtualRowRef := 18; endReachedCalls := 3 |}.
Proof.
  destruct (endReached_watermark callback) as (Hfirst & Hstay & Hback & Hiff & Hgrow).
  assert (Hbelow : forall i j, i < 8 -> j < 8 ->
             Forall belowThreshold [renderTo i 10 2; renderTo j 10 2]).
  { intros i j Hi Hj. repeat constructor; intros v; cbn [virtualRows renderTo];
      rewrite last_windowTo; intros [= <-]; cbn; lia. }
  split; [apply Hfirst, Hbelow; lia|].
  split; [apply (Hback _ _ _ _ _ _ (Hbelow 5 7 ltac:(lia) ltac:(lia)) (last_windowTo 8));
          reflexivity|].
  split; [apply (Hstay _ _ _ _ _ (last_windowTo 9)); reflexivity|].
  split; [apply (Hiff _ _ _ _ _ (last_windowTo 9)); cbn; lia|].
  apply (Hgrow {| lastVirtualRowRef := 9; endReachedCalls := 2 |}). right. reflexivity.
Defined.

(** ** The windowing engine *)

Section Engine.
Import ScrollWindowEngine.

Lemma reportAll_cons (c : nat * Z) (calls : list (nat * Z)) (e : Engine) :
  reportAll (c :: calls) e = reportAll calls (reportMeasured e c).
Proof. done. Qed.

Lemma reportAll_frame (calls : list (nat * Z)) :
  forall e, totalRows (reportAll calls e) = totalRows e
            /\ estimateDefault (reportAll calls e) = estimateDefault e
            /\ overscan (reportAll calls e) = overscan e
            /\ scrollOffset (reportAll calls e) = scrollOffset e
            /\ viewportExtent (reportAll calls e) = viewportExtent e.
Proof.
  induction calls as [|c calls IH]; intros e; [done|].
  rewrite reportAll_cons. by destruct (IH (reportMeasured e c)) as (-> & -> & -> & -> & ->).
Qed.

Lemma sizeTable_reportAll (calls : list (nat * Z)) :
  forall e r, sizeTable (reportAll calls e) !! r
              = match latest calls r with
                | Some h => Some h
                | None => sizeTable e !! r
                end.
Proof.
  induction calls as [|[r' h] calls IH]; intros e r; [done|].
  rewrite reportAll_cons, IH. cbn [latest].
  destruct (latest calls r); [done|].
  cbn [reportMeasured sizeTable fst snd].
  destruct (decide (r' = r)) as [->|Hne].
  - by rewrite lookup_insert_eq.
  - by rewrite lookup_insert_ne.
Qed.

Lemma sizeOf_reportAll (calls : list (nat * Z)) (e : Engine) (r : nat) :
  sizeOf (reportAll calls e) r = default (sizeOf e r) (latest calls r).
Proof.
  unfold sizeOf. rewrite sizeTable_reportAll.
  destruct (reportAll_frame calls e) as (_ & -> & _).
  by destruct (latest calls r).
Qed.

Lemma reportMeasured_commute (e : Engine) (c1 c2 : nat * Z) :
  c1.1 <> c2.1 ->
  reportMeasured (reportMeasured e c1) c2 = reportMeasured (reportMeasured e c2) c1.
Proof.
  intros Hne. unfold reportMeasured. cbn [sizeTable totalRows overscan estimateDefault
    scrollOffset viewportExtent]. f_equal. by apply insert_insert_ne.
Qed.

Lemma reportMeasured_idempotent (e : Engine) (c : nat * Z) :
  reportMeasured (reportMeasured e c) c = reportMeasured e c.
Proof.
  unfold reportMeasured. cbn [sizeTable totalRows overscan estimateDefault
    scrollOffset viewportExtent]. f_equal. apply insert_insert_eq.
Qed.

Lemma reportAll_permutation (calls1 calls2 : list (nat * Z)) :
  calls1 ≡ₚ calls2 -> NoDup (calls1.*1) ->
  forall e, reportAll calls1 e = reportAll calls2 e.
Proof.
  induction 1 as [|c l l' Hp IH|c1 c2 l|l l' l'' Hp1 IH1 Hp2 IH2]; intros Hnd e.
  - done.
  - rewrite !reportAll_cons. apply IH. by inversion Hnd.
  - rewrite !reportAll_cons. f_equal. apply reportMeasured_commute.
    cbn [fmap list_fmap] in Hnd. inversion Hnd as [|? ? Hnotin _]; subst.
    intros Heq. apply Hnotin. rewrite Heq. by left.
  - rewrite IH1 by done. apply IH2.
    by rewrite <- Hp1.
Qed.
End Engine.

(** C6: after any sequence of measurement reports the total size is the
    sum, over all rows, of the height last reported for the row, or of the
    estimate for a row never reported; reports for distinct rows give the
    same engine in any order; and repeating a report changes nothing. *)
Theorem totalSize_latest_reports
    (count overscan : nat) (estimateRowHeight offset extent : Z) :
  let e0 := ScrollWindowEngine.create count overscan estimateRowHeight offset extent in
  (forall calls,
      ScrollWindowEngine.totalSize (ScrollWindowEngine.reportAll calls e0)
      = ScrollWindowEngine.sumZ
          (map (fun r => default estimateRowHeight (ScrollWindowEngine.latest calls r))
               (seq 0 count)))
  /\ (forall calls1 calls2,
        calls1 ≡ₚ calls2 -> NoDup (calls1.*1) ->
        ScrollWindowEngine.reportAll calls1 e0 = ScrollWindowEngine.reportAll calls2 e0
        /\ ScrollWindowEngine.totalSize (ScrollWindowEngine.reportAll calls1 e0)
           = ScrollWindowEngine.totalSize (ScrollWindowEngine.reportAll calls2 e0))
  /\ (forall calls r h,
        let e := ScrollWindowEngine.reportAll calls e0 in
        ScrollWindowEngine.reportMeasured (ScrollWindowEngine.reportMeasured e (r, h)) (r, h)
        = ScrollWindowEngine.reportMeasured e (r, h)).
Proof.
  intros e0. split; [|split].
  - intros calls. unfold ScrollWindowEngine.totalSize.
    destruct (reportAll_frame calls e0) as (-> & _). cbn [e0 ScrollWindowEngine.create
      ScrollWindowEngine.totalRows].
    f_equal. apply map_ext. intros r. rewrite sizeOf_reportAll.
    unfold ScrollWindowEngine.sizeOf. cbn [e0 ScrollWindowEngine.create
      ScrollWindowEngine.sizeTable ScrollWindowEngine.estimateDefault].
    by rewrite lookup_empty.
  - intros calls1 calls2 Hp Hnd.
    by rewrite (reportAll_permutation calls1 calls2 Hp Hnd e0).
  - intros calls r h e. apply reportMeasured_idempotent.
Qed.

Lemma totalSize_latest_reports_witness :
  ScrollWindowEngine.totalSize
    (ScrollWindowEngine.reportAll [(0, 300%Z); (2, 280%Z)]
       (ScrollWindowEngine.create 4 3 320 0 900))
  = ScrollWindowEngine.totalSize
      (ScrollWindowEngine.reportAll [(2, 280%Z); (0, 300%Z)]
         (ScrollWindowEngine.create 4 3 320 0 900)).
Proof.
  refine (proj2 (proj1 (proj2 (totalSize_latest_reports 4 3 320 0 900))
                   [(0, 300%Z); (2, 280%Z)] [(2, 280%Z); (0, 300%Z)] _ _)).
  - apply perm_swap.
  - by apply (bool_decide_unpack _).
Defined.

Section Window.
Import ScrollWindowEngine.

Lemma firstVisible_bound (e : Engine) (f : nat) :
  firstVisible e = Some f -> f < totalRows e.
Proof.
  unfold firstVisible. intros H. apply head_Some_elem_of in H.
  apply list_elem_of_filter in H as [_ H]. apply elem_of_seq in H. lia.
Qed.

Lemma lastVisible_bound (e : Engine) (l : nat) :
  lastVisible e = Some l -> l < totalRows e.
Proof.
  unfold lastVisible. intros H. apply last_Some_elem_of in H.
  apply list_elem_of_filter in H as [_ H]. apply elem_of_seq in H. lia.
Qed.

(** The searches do not look at the overscan count. *)
Lemma searches_withOverscan (ov : nat) (e : Engine) :
  firstVisible (withOverscan ov e) = firstVisible e
  /\ lastVisible (withOverscan ov e) = lastVisible e
  /\ totalRows (withOverscan ov e) = totalRows e.
Proof. done. Qed.

Lemma visibleWindow_range (e : Engine) :
  exists lo n, visibleWindow e = seq lo n /\ (n = 0 \/ lo + n <= totalRows e).
Proof.
  unfold visibleWindow.
  destruct (firstVisible e) as [f|] eqn:Hf; [|exists 0, 0; split; [done|by left]].
  destruct (lastVisible e) as [l|] eqn:Hl; [|exists 0, 0; split; [done|by left]].
  apply firstVisible_bound in Hf.
  eexists _, _. split; [done|]. lia.
Qed.

Lemma visibleWindow_size_mono (e : Engine) (ov1 ov2 : nat) :
  ov1 <= ov2 ->
  length (visibleWindow (withOverscan ov1 e)) <= length (visibleWindow (withOverscan ov2 e)).
Proof.
  intros Hov. unfold visibleWindow.
  destruct (searches_withOverscan ov1 e) as (-> & -> & ->).
  destruct (searches_withOverscan ov2 e) as (-> & -> & ->).
  destruct (firstVisible e) as [f|]; [|done].
  destruct (lastVisible e) as [l|]; [|done].
  rewrite !length_seq. cbn [overscan withOverscan]. lia.
Qed.

(** The windows of the engine meet the contract the end-of-list effect
    relies on. *)
Lemma visibleWindow_windowWithin (e : Engine) :
  windowWithin (map (fun i => {| index := i; start := offsetOf e i; key := i |})
                  (visibleWindow e))
    (Z.of_nat (totalRows e)).
Proof.
  destruct (visibleWindow_range e) as (lo & n & -> & Hn).
  unfold windowWithin. rewrite Forall_map. apply Forall_forall.
  intros r Hr. apply elem_of_seq in Hr. cbn [index]. lia.
Qed.
End Window.

(** C3: for every scroll offset, viewport extent, size table, row count
    and overscan, the visible window is a run of consecutive row indices
    (between two of its indices none is missing), each below the row
    count, and it does not get shorter when the overscan grows. *)
Theorem visibleWindow_contiguous_bounded_monotone (e : ScrollWindowEngine.Engine) :
  (exists lo n, ScrollWindowEngine.visibleWindow e = seq lo n)
  /\ (forall i j k, i ∈ ScrollWindowEngine.visibleWindow e ->
                    k ∈ ScrollWindowEngine.visibleWindow e ->
                    i <= j <= k -> j ∈ ScrollWindowEngine.visibleWindow e)
  /\ Forall (fun r => r < ScrollWindowEngine.totalRows e)
       (ScrollWindowEngine.visibleWindow e)
  /\ (forall ov1 ov2, ov1 <= ov2 ->
        length (ScrollWindowEngine.visibleWindow (ScrollWindowEngine.withOverscan ov1 e))
        <= length (ScrollWindowEngine.visibleWindow (ScrollWindowEngine.withOverscan ov2 e))).
Proof.
  destruct (visibleWindow_range e) as (lo & n & Hw & Hn).
  split; [by exists lo, n|]. rewrite Hw.
  split; [|split].
  - intros i j k Hi Hk Hj. apply elem_of_seq in Hi, Hk. apply elem_of_seq. lia.
  - apply Forall_forall. intros r Hr. apply elem_of_seq in Hr. lia.
  - intros ov1 ov2. apply visibleWindow_size_mono.
Qed.

Lemma visibleWindow_contiguous_bounded_monotone_witness :
  1 <= 3
  /\ length (ScrollWindowEngine.visibleWindow
               (ScrollWindowEngine.withOverscan 1
                  (ScrollWindowEngine.create 10 0 320 700 600)))
     <= length (ScrollWindowEngine.visibleWindow
                  (ScrollWindowEngine.withOverscan 3
                     (ScrollWindowEngine.create 10 0 320 700 600))).
Proof.
  split; [lia|].
  apply (proj2 (proj2 (proj2 (visibleWindow_contiguous_bounded_monotone
                                (ScrollWindowEngine.create 10 0 320 700 600))))).
  lia.
Defined.

(** The window scenarios of the spec: four rows, rows 0 and 1 in view,
    overscan 1; and no rows at all. *)
Example visibleWindow_scenarios :
  ScrollWindowEngine.visibleWindow (ScrollWindowEngine.create 4 1 320 0 600) = [0; 1; 2]
  /\ ScrollWindowEngine.visibleWindow (ScrollWindowEngine.create 10 1 320 700 600)
     = [1; 2; 3; 4; 5]
  /\ ScrollWindowEngine.visibleWindow (ScrollWindowEngine.create 0 3 320 0 600) = []
  /\ ScrollWindowEngine.totalSize (ScrollWindowEngine.create 0 3 320 0 600) = 0%Z.
Proof. repeat split; reflexivity. Qed.

(** * Further properties *)

(** ** Shape of the rows *)

Lemma ceil_div_above (N C r : nat) : 1 <= C -> r < ceil_div N C -> r * C < N.
Proof.
  intros HC Hr. destruct (Nat.le_gt_cases N (r * C)) as [Hle|]; [|done].
  pose proof (ceil_div_least N C r HC Hle). lia.
Qed.

(** X1: with C >= 1 columns no row holds more than C items, every row
    before the last row holds exactly C, and the last row holds the
    remaining N - r*C items, at least one. *)
Theorem rowItems_row_sizes {T} (items : list T) (C r : nat) :
  1 <= C ->
  length (rowItems items C r) <= C
  /\ (S r < ceil_div (length items) C -> length (rowItems items C r) = C)
  /\ (S r = ceil_div (length items) C ->
      length (rowItems items C r) = length items - r * C
      /\ 1 <= length (rowItems items C r)).
Proof.
  intros HC. rewrite rowItems_length. split; [lia|]. split.
  - intros Hr. pose proof (ceil_div_above (length items) C (S r) HC Hr). lia.
  - intros Hr. pose proof (ceil_div_above (length items) C r HC ltac:(lia)).
    pose proof (ceil_div_upper (length items) C HC). nia.
Qed.

Lemma rowItems_row_sizes_witness :
  1 <= 3
  /\ length (rowItems [10; 20; 30; 40; 50; 60; 70] 3 1) = 3
  /\ length (rowItems [10; 20; 30; 40; 50; 60; 70] 3 2) = 7 - 2 * 3.
Proof.
  split; [lia|]. split.
  - apply (rowItems_row_sizes [10; 20; 30; 40; 50; 60; 70] 3 1); [lia|].
    vm_compute. lia.
  - apply (rowItems_row_sizes [10; 20; 30; 40; 50; 60; 70] 3 2); [lia|].
    reflexivity.
Defined.

(** X2: with C >= 1 columns the item at position k sits in row k / C at
    column k mod C, a row below the row count; and whatever a row holds at
    column i is the item at position r*C + i, with i < C and r below the
    row count. *)
Theorem rowItems_position {T} (items : list T) (C : nat) :
  1 <= C ->
  (forall k x, items !! k = Some x ->
     rowItems items C (k / C) !! (k mod C) = Some x
     /\ k / C < ceil_div (length items) C)
  /\ (forall r i x, rowItems items C r !! i = Some x ->
        i < C /\ items !! (r * C + i) = Some x /\ r < ceil_div (length items) C).
Proof.
  intros HC. split.
  - intros k x Hk.
    pose proof (Nat.mod_upper_bound k C ltac:(lia)) as Hm.
    pose proof (Nat.div_mod_eq k C) as Hdm.
    split.
    + rewrite rowItems_lookup by done. rewrite <- Hk. f_equal. lia.
    + apply lookup_lt_Some in Hk.
      destruct (Nat.le_gt_cases (ceil_div (length items) C) (k / C)) as [Hge|]; [|done].
      pose proof (ceil_div_upper (length items) C HC). nia.
  - intros r i x Hx.
    assert (Hi : i < C).
    { apply lookup_lt_Some in Hx. rewrite rowItems_length in Hx. lia. }
    split; [done|]. rewrite rowItems_lookup in Hx by done. split; [done|].
    apply lookup_lt_Some in Hx.
    destruct (Nat.le_gt_cases (ceil_div (length items) C) r) as [Hge|]; [|done].
    pose proof (ceil_div_upper (length items) C HC). nia.
Qed.

Lemma rowItems_position_witness :
  1 <= 3 /\ rowItems [10; 20; 30; 40; 50; 60; 70] 3 (4 / 3) !! (4 mod 3) = Some 50.
Proof.
  split; [lia|].
  apply (proj1 (rowItems_position [10; 20; 30; 40; 50; 60; 70] 3 ltac:(lia)) 4 50).
  reflexivity.
Defined.

(** X3: with at least one column there are never more rows than items,
    and the row count does not drop when items are added nor rise when
    columns are added. *)
Theorem rowCount_monotone {T} (items1 items2 : list T) (C1 C2 : nat) :
  1 <= C2 -> C2 <= C1 -> length items1 <= length items2 ->
  exists k1 k2, rowCount items1 C1 = int k1 /\ rowCount items2 C2 = int k2
    /\ k1 <= k2 /\ k2 <= length items2.
Proof.
  intros H2 H12 Hlen.
  exists (ceil_div (length items1) C1), (ceil_div (length items2) C2).
  rewrite !rowCount_ceil_div by lia. split; [done|]. split; [done|]. split.
  - apply ceil_div_least; [lia|].
    pose proof (ceil_div_upper (length items2) C2 H2). nia.
  - apply ceil_div_least; [done|]. nia.
Qed.

Lemma rowCount_monotone_witness :
  exists k1 k2, rowCount [1; 2; 3; 4; 5] 4 = int k1
    /\ rowCount [1; 2; 3; 4; 5; 6; 7] 3 = int k2 /\ k1 <= k2 /\ k2 <= 7.
Proof.
  apply (rowCount_monotone [1; 2; 3; 4; 5] [1; 2; 3; 4; 5; 6; 7] 4 3); cbn; lia.
Defined.

(** ** Column detection, continued *)

Lemma split_length (sep : ascii) (s : string) :
  length (split sep s) = S (occurrences sep s).
Proof.
  induction s as [|c s IH]; cbn [split occurrences length]; [done|].
  destruct (Ascii.eqb c sep); cbn [length Nat.add]; [by rewrite IH|].
  destruct (split sep s); cbn [length] in *; lia.
Qed.

Lemma columnsAfter_probed (columns : nat) (style : CSSStyleDeclaration) :
  columnsAfter columns (Some style) = detectedCount style.
Proof.
  unfold columnsAfter, detectColumns, detectedCount.
  rewrite detected_count_positive. cbn [andb].
  by destruct (Nat.eqb_spec (length (split " " (gridTemplateColumns style))) columns).
Qed.

(** X4: the detected column count is the number of spaces of the resolved
    template plus one, whatever else the template contains; a pass
    publishes that number unless it is the published one. *)
Theorem detectColumns_counts_spaces (style : CSSStyleDeclaration) (columns : nat) :
  detectedCount style = S (occurrences " " (gridTemplateColumns style))
  /\ detectColumns (Some style) columns
     = (if decide (S (occurrences " " (gridTemplateColumns style)) = columns)
        then None
        else Some (S (occurrences " " (gridTemplateColumns style))))
  /\ columnsAfter columns (Some style) = S (occurrences " " (gridTemplateColumns style)).
Proof.
  assert (Hc : detectedCount style = S (occurrences " " (gridTemplateColumns style)))
    by apply split_length.
  split; [done|]. split; [|by rewrite columnsAfter_probed].
  unfold detectColumns. fold (detectedCount style). rewrite Hc. cbn [Nat.ltb Nat.leb andb].
  case_decide as Heq.
  - by rewrite Heq, Nat.eqb_refl.
  - by destruct (Nat.eqb_spec (S (occurrences " " (gridTemplateColumns style))) columns).
Qed.

(** X5: splitting loses nothing: joining the pieces with the separator
    gives the string back, and no piece contains the separator. *)
Theorem split_join (sep : ascii) (s : string) :
  join sep (split sep s) = s
  /\ Forall (fun piece => occurrences sep piece = 0) (split sep s).
Proof.
  induction s as [|c s [IHj IHp]]; cbn [split]; [by split; [|repeat constructor]|].
  destruct (Ascii.eqb c sep) eqn:Hc.
  - split; [|by constructor].
    pose proof (split_nonempty sep s) as Hne.
    destruct (split sep s) as [|p rest]; cbn [length] in Hne; [lia|].
    apply Ascii.eqb_eq in Hc as ->.
    change (join sep (EmptyString :: p :: rest))
      with (String sep (join sep (p :: rest))).
    by rewrite IHj.
  - destruct (split sep s) as [|p rest].
    + cbn in IHj. subst s. split; [done|]. repeat constructor. cbn. by rewrite Hc.
    + split.
      * rewrite <- IHj. by destruct rest.
      * inversion IHp; subst. constructor; [|done]. cbn [occurrences]. by rewrite Hc.
Qed.

(** X6: a detection pass settles at once: run again on the same probe
    (as the effect of lines 52-57 does after a publish) it publishes
    nothing and leaves the column count as the first pass left it. *)
Theorem detectColumns_settles (probeRef : option CSSStyleDeclaration) (columns : nat) :
  detectColumns probeRef (columnsAfter columns probeRef) = None
  /\ columnsAfter (columnsAfter columns probeRef) probeRef = columnsAfter columns probeRef.
Proof.
  assert (H : detectColumns probeRef (columnsAfter columns probeRef) = None).
  { destruct probeRef as [style|]; [|done].
    rewrite columnsAfter_probed. unfold detectColumns. fold (detectedCount style).
    by rewrite Nat.eqb_refl, andb_false_r. }
  split; [done|]. unfold columnsAfter at 1. by rewrite H.
Qed.

Lemma foldl_columnsAfter_last (passes : list (option CSSStyleDeclaration)) (columns : nat) :
  foldl columnsAfter columns passes
  = match lastProbed passes with
    | Some style => detectedCount style
    | None => columns
    end.
Proof.
  unfold lastProbed.
  induction passes as [|p passes IH] using rev_ind; [done|].
  rewrite foldl_app, omap_app. cbn [foldl omap].
  destruct p as [style|]; cbn.
  - by rewrite columnsAfter_probed, last_snoc.
  - by rewrite app_nil_r.
Qed.

(** X7: the column count depends only on the last pass that found the
    probe element: it is that pass's count, or 3 while no pass has found
    the probe. *)
Theorem columnsTrace_last_probe (passes : list (option CSSStyleDeclaration)) :
  columnsTrace passes
  = match lastProbed passes with
    | Some style => detectedCount style
    | None => 3
    end.
Proof. unfold columnsTrace. apply foldl_columnsAfter_last. Qed.

(** ** End-of-list detection, continued *)

Lemma lastIndexOf_last (r : Render) (v : VirtualItem) :
  last (virtualRows r) = Some v -> lastIndexOf r = Z.of_nat (index v).
Proof. unfold lastIndexOf. by intros ->. Qed.

(** One run of the effect either changes nothing or notifies once for a
    qualifying render and stores its last index. *)
Lemma effectOf_step (d : Detector) (r : Render) :
  effectOf d r = d
  \/ (qualifies r /\ lastIndexOf r <> lastVirtualRowRef d
      /\ effectOf d r = {| lastVirtualRowRef := lastIndexOf r;
                           endReachedCalls := S (endReachedCalls d) |}).
Proof.
  unfold effectOf.
  destruct (endReachedEffect_cases (endReached r) (virtualRows r) (renderRowCount r)
              (endReachedThreshold r) d)
    as [H | (cb & v & Hcb & Hlast & Hge & Hne & H)]; [by left|].
  right. rewrite (lastIndexOf_last r v Hlast). split; [by exists cb, v|]. done.
Qed.

Lemma effectOf_qualifies (d : Detector) (r : Render) :
  qualifies r -> lastIndexOf r <> lastVirtualRowRef d ->
  effectOf d r = {| lastVirtualRowRef := lastIndexOf r;
                    endReachedCalls := S (endReachedCalls d) |}.
Proof.
  intros (cb & v & Hcb & Hlast & Hge) Hne. unfold effectOf.
  rewrite (lastIndexOf_last r v Hlast) in *. rewrite Hcb.
  rewrite (endReachedEffect_last cb _ v) by done.
  assert (Hc : crosses (Z.of_nat (index v)) (renderRowCount r) (endReachedThreshold r) d
               = true) by by apply crosses_true.
  by rewrite Hc.
Qed.

Lemma runEffects_snoc (renders : list Render) (r : Render) (d : Detector) :
  runEffects (renders ++ [r]) d = effectOf (runEffects renders d) r.
Proof. unfold runEffects. by rewrite foldl_app. Qed.

Lemma runEffects_calls_bounds (renders : list Render) :
  forall d, endReachedCalls d <= endReachedCalls (runEffects renders d)
            /\ endReachedCalls (runEffects renders d) <= endReachedCalls d + length renders.
Proof.
  induction renders as [|r renders IH]; intros d; cbn [length]; [unfold runEffects; cbn; lia|].
  change (runEffects (r :: renders) d) with (runEffects renders (effectOf d r)).
  specialize (IH (effectOf d r)).
  destruct (effectOf_step d r) as [Heq | (_ & _ & Heq)]; rewrite Heq in *; cbn in *; lia.
Qed.

Lemma runEffects_calls_same (renders : list Render) :
  forall d, endReachedCalls (runEffects renders d) = endReachedCalls d ->
            runEffects renders d = d.
Proof.
  induction renders as [|r renders IH]; intros d Hsame; [done|].
  change (runEffects (r :: renders) d) with (runEffects renders (effectOf d r)) in *.
  destruct (effectOf_step d r) as [Heq | (_ & _ & Heq)]; rewrite Heq in *; [by apply IH|].
  pose proof (runEffects_calls_bounds renders
                {| lastVirtualRowRef := lastIndexOf r;
                   endReachedCalls := S (endReachedCalls d) |}) as [Hlo _].
  cbn in Hlo. lia.
Qed.

(** From the initial detector: nothing notified and watermark -1, or
    something notified and the watermark is the last index of a qualifying
    render. *)
Lemma runEffects_initial_inv (renders : list Render) :
  (endReachedCalls (runEffects renders initialDetector) = 0
   /\ lastVirtualRowRef (runEffects renders initialDetector) = (-1)%Z)
  \/ (0 < endReachedCalls (runEffects renders initialDetector)
      /\ (0 <= lastVirtualRowRef (runEffects renders initialDetector))%Z
      /\ exists r, r ∈ renders /\ qualifies r
           /\ lastIndexOf r = lastVirtualRowRef (runEffects renders initialDetector)).
Proof.
  induction renders as [|r renders IH] using rev_ind; [by left|].
  rewrite runEffects_snoc.
  destruct (effectOf_step (runEffects renders initialDetector) r)
    as [Heq | (Hq & _ & Heq)]; rewrite Heq.
  - destruct IH as [IH | (Hc & Hw & r' & Hin & Hq' & Hl)]; [by left|].
    right. split; [done|]. split; [done|]. exists r'.
    split; [apply elem_of_app; by left|done].
  - right. cbn. split; [lia|]. split.
    + destruct Hq as (cb & v & _ & Hlast & _). rewrite (lastIndexOf_last r v Hlast). lia.
    + exists r. split; [|done].
      apply elem_of_app. right. by apply list_elem_of_singleton.
Qed.

Lemma qualifies_renderTo (i : nat) (rc thr : Z) :
  (rc - thr <= Z.of_nat i)%Z -> qualifies (renderTo i rc thr).
Proof.
  intros H. exists callback, {| index := i; start := 0; key := i |}.
  split; [done|]. split; [apply last_windowTo|done].
Qed.

Lemma lastIndexOf_renderTo (i : nat) (rc thr : Z) :
  lastIndexOf (renderTo i rc thr) = Z.of_nat i.
Proof.
  apply (lastIndexOf_last (renderTo i rc thr) {| index := i; start := 0; key := i |}).
  apply last_windowTo.
Qed.

(** X8: each run of the effect makes at most one [endReached()] call:
    through any series of renders the call count never drops, grows by at
    most the number of renders, and if it has not grown the watermark has
    not moved either. *)
Theorem endReached_calls_bounded (renders : list Render) (d : Detector) :
  endReachedCalls d <= endReachedCalls (runEffects renders d)
  /\ endReachedCalls (runEffects renders d) <= endReachedCalls d + length renders
  /\ (endReachedCalls (runEffects renders d) = endReachedCalls d ->
      runEffects renders d = d).
Proof.
  destruct (runEffects_calls_bounds renders d) as [Hlo Hhi].
  split; [done|]. split; [done|]. apply runEffects_calls_same.
Qed.

Lemma endReached_calls_bounded_witness :
  endReachedCalls (runEffects [renderTo 8 10 2; renderTo 8 10 2] initialDetector) = 1
  /\ runEffects [renderTo 8 10 2]
       {| lastVirtualRowRef := 8; endReachedCalls := 1 |}
     = {| lastVirtualRowRef := 8; endReachedCalls := 1 |}.
Proof.
  split; [reflexivity|].
  apply (endReached_calls_bounded [renderTo 8 10 2]
           {| lastVirtualRowRef := 8; endReachedCalls := 1 |}).
  reflexivity.
Defined.

(** X9: starting from the initial watermark -1, the watermark is -1
    exactly as long as nothing has been notified; afterwards it is the
    last row index of one of the renders seen, one that had a callback
    and ended within the threshold of its row count. *)
Theorem watermark_invariant (renders : list Render) :
  (endReachedCalls (runEffects renders initialDetector) = 0
   <-> lastVirtualRowRef (runEffects renders initialDetector) = (-1)%Z)
  /\ (-1 <= lastVirtualRowRef (runEffects renders initialDetector))%Z
  /\ (0 < endReachedCalls (runEffects renders initialDetector) ->
      exists r, r ∈ renders /\ qualifies r
        /\ lastIndexOf r = lastVirtualRowRef (runEffects renders initialDetector)).
Proof.
  destruct (runEffects_initial_inv renders) as [[Hc Hw] | (Hc & Hw & Hr)].
  - rewrite Hc, Hw. split; [done|]. split; [done|]. lia.
  - split; [split; lia|]. split; [lia|]. done.
Qed.

Lemma watermark_invariant_witness :
  exists r, r ∈ [renderTo 5 10 2; renderTo 8 10 2; renderTo 6 10 2]
    /\ qualifies r
    /\ lastIndexOf r
       = lastVirtualRowRef
           (runEffects [renderTo 5 10 2; renderTo 8 10 2; renderTo 6 10 2] initialDetector).
Proof.
  apply (watermark_invariant [renderTo 5 10 2; renderTo 8 10 2; renderTo 6 10 2]).
  vm_compute. lia.
Defined.

(** X10: a run of the effect repeated with the same values (a re-render
    with nothing changed) does nothing: at most the first of any number
    of identical consecutive runs notifies. *)
Theorem endReachedEffect_idempotent (r : Render) (d : Detector) (n : nat) :
  effectOf (effectOf d r) r = effectOf d r
  /\ runEffects (replicate (S n) r) d = effectOf d r.
Proof.
  assert (H : forall d', effectOf (effectOf d' r) r = effectOf d' r).
  { intros d'. destruct (effectOf_step (effectOf d' r) r) as [Heq | (_ & Hne & _)]; [done|].
    destruct (effectOf_step d' r) as [Heq' | (_ & _ & Heq')].
    - by rewrite !Heq'.
    - rewrite Heq' in Hne. by cbn in Hne. }
  split; [done|].
  induction n as [|n IH]; [done|].
  change (runEffects (replicate (S (S n)) r) d)
    with (runEffects (replicate (S n) r) (effectOf d r)).
  clear IH. revert d. induction n as [|n IH]; intros d; [apply H|].
  change (runEffects (replicate (S (S n)) r) (effectOf d r))
    with (runEffects (replicate (S n) r) (effectOf (effectOf d r) r)).
  rewrite H. apply IH.
Qed.

(** X11: the watermark remembers one row only: through a series of
    renders that each have a callback, end within the threshold of the
    end, and end at a row other than the render before (the first one at
    a row other than the watermark), every single render notifies. *)
Theorem endReached_fires_on_every_change (renders : list Render) :
  forall d,
    Forall qualifies renders ->
    changesEachTime (lastVirtualRowRef d) renders ->
    endReachedCalls (runEffects renders d) = endReachedCalls d + length renders
    /\ lastVirtualRowRef (runEffects renders d)
       = default (lastVirtualRowRef d) (lastIndexOf <$> last renders).
Proof.
  induction renders as [|r renders IH]; intros d Hq Hch.
  - unfold runEffects. cbn. split; [lia|done].
  - inversion Hq as [|? ? Hqr Hqs]; subst. destruct Hch as [Hne Hch].
    change (runEffects (r :: renders) d) with (runEffects renders (effectOf d r)).
    rewrite (effectOf_qualifies d r Hqr Hne).
    destruct (IH {| lastVirtualRowRef := lastIndexOf r;
                    endReachedCalls := S (endReachedCalls d) |} Hqs Hch) as [Hc Hw].
    rewrite Hc, Hw. cbn [endReachedCalls lastVirtualRowRef length].
    split; [lia|]. destruct renders as [|r' rs]; [done|].
    change (last (r :: r' :: rs)) with (last (r' :: rs)).
    destruct (last (r' :: rs)) eqn:Hlast; [done|].
    by apply last_None in Hlast.
Qed.

Lemma endReached_fires_on_every_change_witness :
  endReachedCalls
    (runEffects [renderTo 8 10 2; renderTo 9 10 2; renderTo 8 10 2; renderTo 9 10 2]
       initialDetector) = 0 + 4.
Proof.
  apply (endReached_fires_on_every_change
           [renderTo 8 10 2; renderTo 9 10 2; renderTo 8 10 2; renderTo 9 10 2]
           initialDetector).
  - repeat (constructor; [apply qualifies_renderTo; lia|]). constructor.
  - cbn [changesEachTime]. rewrite !lastIndexOf_renderTo. cbn. lia.
Defined.

(** X12: no crossing is missed: starting from the initial watermark,
    nothing has been notified exactly if no render so far had a callback
    and ended within the threshold of the end; and right after such a
    render the watermark is that render's last row and at least one
    notification has been made. *)
Theorem endReached_not_missed (renders : list Render) :
  (endReachedCalls (runEffects renders initialDetector) = 0
   <-> Forall (fun r => ~ qualifies r) renders)
  /\ (forall r, qualifies r ->
        lastVirtualRowRef (runEffects (renders ++ [r]) initialDetector) = lastIndexOf r
        /\ 0 < endReachedCalls (runEffects (renders ++ [r]) initialDetector)).
Proof.
  assert (Hfire : forall rs r, qualifies r ->
             lastVirtualRowRef (runEffects (rs ++ [r]) initialDetector) = lastIndexOf r
             /\ 0 < endReachedCalls (runEffects (rs ++ [r]) initialDetector)).
  { intros rs r Hq. rewrite runEffects_snoc.
    destruct (Z.eq_dec (lastIndexOf r) (lastVirtualRowRef (runEffects rs initialDetector)))
      as [Hsame|Hne].
    - destruct (effectOf_step (runEffects rs initialDetector) r)
        as [Heq | (_ & Hne & _)]; [rewrite Heq|done].
      split; [done|].
      destruct (runEffects_initial_inv rs) as [[_ Hw] | (Hc & _)]; [|done].
      destruct Hq as (cb & v & _ & Hlast & _).
      rewrite (lastIndexOf_last r v Hlast) in Hsame. lia.
    - rewrite (effectOf_qualifies _ r Hq Hne). cbn. split; [done|lia]. }
  split; [|intros r; apply Hfire].
  induction renders as [|r renders IH] using rev_ind; [by split; [constructor|]|].
  rewrite Forall_app, Forall_singleton, <- IH. split.
  - intros H0.
    pose proof (runEffects_calls_bounds [r] (runEffects renders initialDetector)) as [Hlo _].
    change (runEffects [r] (runEffects renders initialDetector))
      with (effectOf (runEffects renders initialDetector) r) in Hlo.
    rewrite <- runEffects_snoc in Hlo. split; [lia|].
    intros Hq. destruct (Hfire renders r Hq) as [_ Hpos]. lia.
  - intros [H0 Hnq]. rewrite runEffects_snoc.
    destruct (effectOf_step (runEffects renders initialDetector) r)
      as [Heq | (Hq & _)]; [by rewrite Heq|done].
Qed.

Lemma endReached_not_missed_witness :
  lastVirtualRowRef
    (runEffects ([renderTo 8 10 2; renderTo 4 10 2] ++ [renderTo 9 10 2]) initialDetector)
  = lastIndexOf (renderTo 9 10 2).
Proof.
  apply (endReached_not_missed [renderTo 8 10 2; renderTo 4 10 2]).
  apply qualifies_renderTo. lia.
Defined.

Lemma gridEffect_ceil {T} (items : list T) (C : nat) (endReached : option Callback)
    (rows : list VirtualItem) (thr : Z) (d : Detector) :
  1 <= C ->
  gridEffect items C endReached rows thr d
  = endReachedEffect endReached rows (Z.of_nat (ceil_div (length items) C)) thr d.
Proof.
  intros HC. unfold gridEffect. rewrite rowCount_ceil_div by done.
  unfold int. by rewrite Qceiling_Z.
Qed.

(** X13: in terms of items: with C >= 1 columns, a callback and a last
    virtual row i, the effect notifies exactly if N <= (i + threshold) * C
    and i is not the watermark; so when it notifies, at most
    (threshold - 1) * C items lie behind the last rendered row. *)
Theorem gridEffect_items {T} (items : list T) (C : nat) (cb : Callback)
    (rows : list VirtualItem) (v : VirtualItem) (thr : Z) (d : Detector) :
  1 <= C -> last rows = Some v ->
  (endReachedCalls (gridEffect items C (Some cb) rows thr d) = S (endReachedCalls d)
   <-> (Z.of_nat (length items) <= (Z.of_nat (index v) + thr) * Z.of_nat C)%Z
       /\ Z.of_nat (index v) <> lastVirtualRowRef d)
  /\ (endReachedCalls (gridEffect items C (Some cb) rows thr d) = S (endReachedCalls d) ->
      (Z.of_nat (length items) - (Z.of_nat (index v) + 1) * Z.of_nat C
       <= (thr - 1) * Z.of_nat C)%Z).
Proof.
  intros HC Hlast. rewrite gridEffect_ceil by done.
  pose proof (notifies_iff cb rows v (Z.of_nat (ceil_div (length items) C)) thr d Hlast)
    as Hiff. unfold notifies in Hiff.
  assert (Hitems : (Z.of_nat (ceil_div (length items) C) - thr <= Z.of_nat (index v))%Z
                   <-> (Z.of_nat (length items)
                        <= (Z.of_nat (index v) + thr) * Z.of_nat C)%Z).
  { pose proof (ceil_div_upper (length items) C HC) as Hup. split; intros H.
    - nia.
    - assert (0 <= Z.of_nat (index v) + thr)%Z by nia.
      pose proof (ceil_div_least (length items) C (Z.to_nat (Z.of_nat (index v) + thr)) HC)
        as Hleast.
      assert (length items <= Z.to_nat (Z.of_nat (index v) + thr) * C) by nia.
      specialize (Hleast ltac:(done)). lia. }
  split.
  - rewrite Hiff, Hitems. done.
  - intros Hfire. apply Hiff in Hfire as [Hge _]. apply Hitems in Hge. lia.
Qed.

Lemma gridEffect_items_witness :
  (Z.of_nat (length [1; 2; 3; 4; 5; 6; 7; 8; 9; 10]) - (Z.of_nat 2 + 1) * Z.of_nat 3
   <= (2 - 1) * Z.of_nat 3)%Z.
Proof.
  apply (gridEffect_items [1; 2; 3; 4; 5; 6; 7; 8; 9; 10] 3 callback (windowTo 2)
           {| index := 2; start := 0; key := 2 |} 2 initialDetector).
  - lia.
  - apply last_windowTo.
  - reflexivity.
Defined.

(** ** Rendering *)

Lemma renderedCells_cons {T R} (items : list T) (f : T -> nat -> R) (C : nat)
    (vr : VirtualItem) (rows : list VirtualItem) :
  renderedCells items f C (vr :: rows)
  = renderRow items f C vr ++ renderedCells items f C rows.
Proof. done. Qed.

Lemma renderedCells_app {T R} (items : list T) (f : T -> nat -> R) (C : nat)
    (rows1 rows2 : list VirtualItem) :
  renderedCells items f C (rows1 ++ rows2)
  = renderedCells items f C rows1 ++ renderedCells items f C rows2.
Proof. unfold renderedCells, renderRows. by rewrite map_app, concat_app. Qed.

Lemma renderRow_lookup {T R} (items : list T) (f : T -> nat -> R) (C : nat)
    (vr : VirtualItem) (i : nat) (cell : nat * R) :
  renderRow items f C vr !! i = Some cell ->
  i < C /\ cell.1 = index vr * C + i
  /\ exists x, items !! (index vr * C + i) = Some x /\ cell.2 = f x (index vr * C + i).
Proof.
  unfold renderRow. rewrite list_lookup_imap.
  destruct (rowItems items C (index vr) !! i) as [x|] eqn:Hx; [|done].
  intros [= <-]. cbn [fst snd].
  assert (Hi : i < C).
  { apply lookup_lt_Some in Hx. rewrite rowItems_length in Hx. lia. }
  rewrite rowItems_lookup in Hx by done. split; [done|]. split; [done|]. by exists x.
Qed.

Lemma renderRow_length {T R} (items : list T) (f : T -> nat -> R) (C : nat)
    (vr : VirtualItem) :
  length (renderRow items f C vr) <= C.
Proof. unfold renderRow. rewrite length_imap, rowItems_length. lia. Qed.

Lemma renderedCells_elem {T R} (items : list T) (f : T -> nat -> R) (C : nat)
    (rows : list VirtualItem) (cell : nat * R) :
  cell ∈ renderedCells items f C rows ->
  exists vr i, vr ∈ rows /\ renderRow items f C vr !! i = Some cell.
Proof.
  induction rows as [|vr rows IH]; [by intros ?%elem_of_nil|].
  rewrite renderedCells_cons, elem_of_app. intros [Hin|Hin].
  - apply list_elem_of_lookup in Hin as [i Hi]. exists vr, i. split; [by left|done].
  - destruct (IH Hin) as (vr' & i & Hvr & Hi). exists vr', i. split; [by right|done].
Qed.

(** X14: whatever the window, [renderItem] is only ever called on an
    item of the sequence together with that item's own position, and the
    position is the cell's key: every rendered cell (k, out) has
    items[k] = x and out = renderItem(x, k) for some item x. *)
Theorem renderItem_gets_own_index {T R} (items : list T) (renderItem : T -> nat -> R)
    (columns : nat) (virtualRows : list VirtualItem) :
  Forall (fun cell => exists x, items !! cell.1 = Some x /\ cell.2 = renderItem x cell.1)
         (renderedCells items renderItem columns virtualRows).
Proof.
  apply Forall_forall. intros cell Hin.
  apply renderedCells_elem in Hin as (vr & i & _ & Hi).
  apply renderRow_lookup in Hi as (_ & -> & x & Hx & ->). by exists x.
Qed.

Lemma renderedCells_length {T R} (items : list T) (f : T -> nat -> R) (C : nat)
    (rows : list VirtualItem) :
  length (renderedCells items f C rows) <= length rows * C.
Proof.
  induction rows as [|vr rows IH]; [done|].
  rewrite renderedCells_cons, length_app. cbn [length].
  pose proof (renderRow_length items f C vr). lia.
Qed.

Lemma renderRow_positions_NoDup {T R} (items : list T) (f : T -> nat -> R) (C : nat)
    (vr : VirtualItem) :
  NoDup (renderRow items f C vr).*1.
Proof.
  apply NoDup_alt. intros i j k Hi Hj.
  rewrite list_lookup_fmap in Hi, Hj.
  destruct (renderRow items f C vr !! i) as [ci|] eqn:Hci; [|done].
  destruct (renderRow items f C vr !! j) as [cj|] eqn:Hcj; [|done].
  apply renderRow_lookup in Hci as (_ & Hci & _).
  apply renderRow_lookup in Hcj as (_ & Hcj & _).
  cbn in Hi, Hj. injection Hi as <-. injection Hj as Hj. lia.
Qed.

Lemma renderedCells_row_of {T R} (items : list T) (f : T -> nat -> R) (C : nat)
    (rows : list VirtualItem) (k : nat) :
  1 <= C -> k ∈ (renderedCells items f C rows).*1 ->
  exists vr, vr ∈ rows /\ index vr = k / C.
Proof.
  intros HC Hk. apply list_elem_of_fmap in Hk as (cell & -> & Hin).
  apply renderedCells_elem in Hin as (vr & i & Hvr & Hi).
  apply renderRow_lookup in Hi as (Hlt & -> & _).
  exists vr. split; [done|].
  apply (Nat.div_unique _ C (index vr) i); lia.
Qed.

(** X15: a render costs at most (number of virtual rows) * columns cells,
    however long the item sequence is; and with C >= 1 columns and
    pairwise different row indices in the window no position is rendered
    twice. *)
Theorem renderedCells_bounded_distinct {T R} (items : list T) (renderItem : T -> nat -> R)
    (C : nat) (virtualRows : list VirtualItem) :
  length (renderedCells items renderItem C virtualRows) <= length virtualRows * C
  /\ (1 <= C -> NoDup (index <$> virtualRows) ->
      NoDup (renderedCells items renderItem C virtualRows).*1).
Proof.
  split; [apply renderedCells_length|].
  intros HC. induction virtualRows as [|vr rows IH]; intros Hnd; [constructor|].
  rewrite renderedCells_cons, fmap_app.
  rewrite fmap_cons in Hnd. apply NoDup_cons in Hnd as [Hnotin Hnd].
  apply NoDup_app. split; [apply renderRow_positions_NoDup|]. split; [|by apply IH].
  intros k Hk Hk'.
  assert (Hone : renderedCells items renderItem C [vr] = renderRow items renderItem C vr).
  { unfold renderedCells, renderRows. cbn [map concat]. by rewrite app_nil_r. }
  rewrite <- Hone in Hk.
  apply (renderedCells_row_of items renderItem C [vr] k HC) in Hk as (vr0 & Hvr0 & Hr).
  apply list_elem_of_singleton in Hvr0 as ->.
  apply (renderedCells_row_of items renderItem C rows k HC) in Hk' as (vr' & Hvr' & Hr').
  apply Hnotin. rewrite Hr, <- Hr'. by apply list_elem_of_fmap_2.
Qed.

Lemma renderedCells_bounded_distinct_witness :
  1 <= 3
  /\ NoDup (renderedCells [10; 20; 30; 40; 50; 60; 70] (fun x k => x + k) 3 (rowsOf 1 2)).*1.
Proof.
  split; [lia|].
  apply (renderedCells_bounded_distinct [10; 20; 30; 40; 50; 60; 70]
           (fun x k => x + k) 3 (rowsOf 1 2)); [lia|].
  by apply (bool_decide_unpack _).
Defined.

Lemma rowItems_take_drop {T} (items : list T) (C r : nat) :
  rowItems items C r = take C (drop (r * C) items).
Proof.
  rewrite rowItems_range. unfold items_range.
  destruct (Nat.le_gt_cases ((r + 1) * C) (length items)) as [Hle|Hgt].
  - f_equal. lia.
  - rewrite !take_ge; [done | rewrite length_drop; lia | rewrite length_drop; lia].
Qed.

Lemma renderedCells_rowsOf {T R} (items : list T) (f : T -> nat -> R) (C lo n : nat) :
  renderedCells items f C (rowsOf lo n)
  = imap (fun i x => (lo * C + i, f x (lo * C + i))) (take (n * C) (drop (lo * C) items)).
Proof.
  induction n as [|n IH]; [done|].
  unfold rowsOf in *. rewrite seq_S, map_app, renderedCells_app, IH. cbn [map].
  replace (S n * C) with (n * C + C) by lia.
  rewrite <- take_take_drop, imap_app, drop_drop. f_equal.
  unfold renderedCells, renderRows, renderRow. cbn [map concat index].
  rewrite app_nil_r, rowItems_take_drop.
  replace ((lo + n) * C) with (lo * C + n * C) by lia.
  destruct (Nat.le_gt_cases (n * C) (length (drop (lo * C) items))) as [Hle|Hgt].
  - rewrite length_take_le by done. apply imap_ext. intros i x _.
    cbn. f_equal; [lia | f_equal; lia].
  - rewrite length_drop in Hgt. rewrite (drop_ge items (lo * C + n * C)) by lia.
    by rewrite take_nil.
Qed.

(** X16: a window of the consecutive rows lo .. lo+n-1 renders, in order
    and each with its own position, exactly the items at the positions
    lo*C .. (lo+n)*C - 1 that exist; the window of all ceil(N/C) rows
    renders every item once, in sequence order. *)
Theorem render_contiguous_window {T R} (items : list T) (renderItem : T -> nat -> R)
    (C : nat) :
  (forall lo n,
      renderedCells items renderItem C (rowsOf lo n)
      = imap (fun i x => (lo * C + i, renderItem x (lo * C + i)))
             (take (n * C) (drop (lo * C) items)))
  /\ (1 <= C ->
      renderedCells items renderItem C (rowsOf 0 (ceil_div (length items) C))
      = imap (fun k x => (k, renderItem x k)) items).
Proof.
  split; [intros lo n; apply renderedCells_rowsOf|].
  intros HC. rewrite renderedCells_rowsOf. cbn [Nat.mul Nat.add drop].
  rewrite take_ge by by apply ceil_div_upper. done.
Qed.

Lemma render_contiguous_window_witness :
  1 <= 3
  /\ renderedCells [10; 20; 30; 40; 50; 60; 70] (fun x k => x + k) 3 (rowsOf 0 3)
     = [(0, 10); (1, 21); (2, 32); (3, 43); (4, 54); (5, 65); (6, 76)].
Proof.
  split; [lia|].
  apply (proj2 (render_contiguous_window [10; 20; 30; 40; 50; 60; 70]
                  (fun x k => x + k) 3)).
  lia.
Defined.
